(** * vocode: the llama.cpp agent and the miniaudio decode worker

    A shallow embedding of
      - [vocode/streaming/synthesizer/miniaudio_worker.py]
        (class [MiniaudioWorker], method [_run_loop]), and
      - [vocode/streaming/agent/llamacpp_agent.py]
        (classes [CustomStreamingCallbackHandler] and [LlamacppAgent]),
    followed by the properties of the specification that concern them.

    Queues are FIFO lists (head = next item delivered by [get]); Python
    exceptions are values of [exn]; a call that may raise returns a
    [result]. *)

From Stdlib.Init Require Import Byte.
From stdpp Require Import base option list strings gmap.

(** ** Python runtime values shared by both files *)

(** [bytes] objects. *)
Definition bytes : Type := list Byte.byte.

(** The exception classes the two files raise or catch by name; every other
    class is an [OtherError] carrying its class name. *)
Inductive exn : Type :=
| ValueError (msg : string)
| DecodeError (msg : string)            (* miniaudio.DecodeError *)
| OtherError (cls : string) (msg : string).

(** [str(e)] *)
Definition str (e : exn) : string :=
  match e with
  | ValueError msg | DecodeError msg | OtherError _ msg => msg
  end.

(** Outcome of a call: it returns a value or raises. *)
Inductive result (A : Type) : Type :=
| Return (a : A)
| Raise (e : exn).
Arguments Return {A} a.
Arguments Raise {A} e.

(** ** miniaudio_worker.py *)

Module MiniaudioWorker.

(** An item of either queue: [Tuple[Optional[bytes], bool]]. *)
Definition item : Type := option bytes * bool.

Section Worker.

(** [SynthesizerConfig.audio_encoding] ranges over an enumeration declared
    elsewhere in the package. *)
Variable AudioEncoding : Type.

(** [vocode.streaming.utils.mp3_helper.decode_mp3]: the codec's decode
    routine, which returns the decoded audio or raises. *)
Variable decode_mp3 : bytes -> result bytes.

(** [vocode.streaming.utils.convert_wav]. *)
Variable convert_wav : bytes -> Z -> AudioEncoding -> bytes.

Record SynthesizerConfig : Type := {
  sampling_rate : Z;
  audio_encoding : AudioEncoding
}.

(** The worker object together with what it can reach: its configuration,
    the contents of the two janus queues, and the records written through
    the module-level [logger]. *)
Record worker : Type := {
  synthesizer_config : SynthesizerConfig;
  input_janus_queue : list item;
  output_janus_queue : list item;
  logged : list string
}.

(** [self.output_janus_queue.sync_q.put(x)] *)
Definition put (x : item) (w : worker) : worker :=
  {| synthesizer_config := synthesizer_config w;
     input_janus_queue := input_janus_queue w;
     output_janus_queue := output_janus_queue w ++ [x];
     logged := logged w |}.

(** [logger.exception(msg, exc_info=True)] *)
Definition logger_exception (msg : string) (w : worker) : worker :=
  {| synthesizer_config := synthesizer_config w;
     input_janus_queue := input_janus_queue w;
     output_janus_queue := output_janus_queue w;
     logged := logged w ++ [msg] |}.

(** The worker after [sync_q.get()] has removed the head of the input
    queue, leaving [rest]. *)
Definition after_get (rest : list item) (w : worker) : worker :=
  {| synthesizer_config := synthesizer_config w;
     input_janus_queue := rest;
     output_janus_queue := output_janus_queue w;
     logged := logged w |}.

(** What one pass through the body of [while True:] does. *)
Inductive iteration : Type :=
| Continue (w : worker)          (* body done (or [continue]); loop again *)
| Blocked                        (* [sync_q.get()] waits on an empty queue *)
| Escaped (e : exn) (w : worker) (* an exception left the loop body *).

(** The body of the loop of [_run_loop] (source lines 24 to 43). *)
Definition loop_body (w : worker) : iteration :=
  match input_janus_queue w with
  | [] => Blocked
  | (mp3_chunk, is_last) :: rest =>
      let w := after_get rest w in
      match mp3_chunk with
      | None => Continue (put (None, true) w)
      | Some mp3_chunk =>
          match decode_mp3 mp3_chunk with
          | Raise (DecodeError msg) =>
              let w :=
                logger_exception
                  ("MiniaudioWorker error: " +:+ str (DecodeError msg)) w in
              Continue (put (None, true) w)
          | Raise e => Escaped e w
          | Return output_bytes_io =>
              let output_bytes_io :=
                convert_wav output_bytes_io
                  (sampling_rate (synthesizer_config w))
                  (audio_encoding (synthesizer_config w)) in
              Continue (put (Some output_bytes_io, is_last) w)
          end
      end
  end.

(** Where the thread running [_run_loop] stands. *)
Inductive thread_state : Type :=
| Waiting            (* inside [sync_q.get()], input queue drained *)
| Crashed (e : exn)  (* the loop was left by an exception *)
| Running            (* still iterating (the bound below was reached) *).

(** [_run_loop]: [while True: body], observed for at most [fuel]
    iterations. *)
Fixpoint _run_loop (fuel : nat) (w : worker) : thread_state * worker :=
  match fuel with
  | O => (Running, w)
  | S fuel =>
      match loop_body w with
      | Continue w' => _run_loop fuel w'
      | Blocked => (Waiting, w)
      | Escaped e w' => (Crashed e, w')
      end
  end.

(** A freshly constructed worker whose input queue has been fed [input]. *)
Definition fed (cfg : SynthesizerConfig) (input : list item) : worker :=
  {| synthesizer_config := cfg;
     input_janus_queue := input;
     output_janus_queue := [];
     logged := [] |}.

(** The stream's terminal marker as the worker writes it. *)
Definition terminal_marker : item := (None, true).

(** Input items carrying the compressed chunks [chunks], none of them the
    absent marker. *)
Definition nonterminal (chunks : list (bytes * bool)) : list item :=
  map (fun x => (Some x.1, x.2)) chunks.

(** Every chunk of [chunks] decodes, and [pcm] names the decoded audio. *)
Definition decodes_to (pcm : bytes -> bytes) (chunks : list (bytes * bool)) : Prop :=
  Forall (fun x => decode_mp3 x.1 = Return (pcm x.1)) chunks.

(** The output items expected for [chunks]: each one decoded on its own,
    converted to the configured rate and encoding, flag unchanged. *)
Definition transcoded (pcm : bytes -> bytes) (cfg : SynthesizerConfig)
    (chunks : list (bytes * bool)) : list item :=
  map (fun x =>
         (Some (convert_wav (pcm x.1) (sampling_rate cfg) (audio_encoding cfg)),
          x.2))
      chunks.

(** An absent chunk always travels with the flag [true]. *)
Definition marker_is_last (x : item) : Prop := x.1 = None -> x.2 = true.

(** The worker [w] once it has taken its input down to [rest], written
    [out] and logged [msgs]. *)
Definition moved_on (w : worker) (rest out : list item) (msgs : list string)
  : worker :=
  {| synthesizer_config := synthesizer_config w;
     input_janus_queue := rest;
     output_janus_queue := output_janus_queue w ++ out;
     logged := logged w ++ msgs |}.

(** The only exception decoding the chunk of [x] can raise is
    [miniaudio.DecodeError]. *)
Definition decode_errors_only (x : item) : Prop :=
  forall mp3_chunk e,
    x.1 = Some mp3_chunk -> decode_mp3 mp3_chunk = Raise e ->
    exists msg, e = DecodeError msg.

(** What the loop body writes for the item [x]: the terminal marker for an
    absent chunk or a chunk that does not decode, the converted audio with
    the item's own flag otherwise. *)
Definition emitted (cfg : SynthesizerConfig) (x : item) : item :=
  match x.1 with
  | None => terminal_marker
  | Some mp3_chunk =>
      match decode_mp3 mp3_chunk with
      | Return wav =>
          (Some (convert_wav wav (sampling_rate cfg) (audio_encoding cfg)), x.2)
      | Raise _ => terminal_marker
      end
  end.

(** The records the loop body logs for the item [x]. *)
Definition complaints (x : item) : list string :=
  match x.1 with
  | None => []
  | Some mp3_chunk =>
      match decode_mp3 mp3_chunk with
      | Raise (DecodeError msg) => ["MiniaudioWorker error: " +:+ msg]
      | _ => []
      end
  end.

(** The producer's side of the input queue: [xs] are put behind what is
    already queued. *)
Definition enqueue (xs : list item) (w : worker) : worker :=
  {| synthesizer_config := synthesizer_config w;
     input_janus_queue := input_janus_queue w ++ xs;
     output_janus_queue := output_janus_queue w;
     logged := logged w |}.

End Worker.

Arguments sampling_rate {AudioEncoding} _.
Arguments audio_encoding {AudioEncoding} _.
Arguments synthesizer_config {AudioEncoding} _.
Arguments input_janus_queue {AudioEncoding} _.
Arguments output_janus_queue {AudioEncoding} _.
Arguments logged {AudioEncoding} _.
Arguments put {AudioEncoding} x w.
Arguments logger_exception {AudioEncoding} msg w.
Arguments after_get {AudioEncoding} rest w.
Arguments Continue {AudioEncoding} w.
Arguments Blocked {AudioEncoding}.
Arguments Escaped {AudioEncoding} e w.
Arguments loop_body {AudioEncoding} decode_mp3 convert_wav w.
Arguments _run_loop {AudioEncoding} decode_mp3 convert_wav fuel w.
Arguments fed {AudioEncoding} cfg input.
Arguments transcoded {AudioEncoding} convert_wav pcm cfg chunks.
Arguments moved_on {AudioEncoding} w rest out msgs.
Arguments emitted {AudioEncoding} decode_mp3 convert_wav cfg x.
Arguments enqueue {AudioEncoding} xs w.

End MiniaudioWorker.

(** ** llamacpp_agent.py *)

Module LlamacppAgent.

Definition ALPACA_TEMPLATE_WITH_HISTORY : string :=
"### Instruction:
Your previous conversation history:
{history}

Current instruction/message to respond to: {input}
### Response:".

(** [langchain.schema] messages held by [ConversationBufferMemory]. *)
Inductive message : Type :=
| SystemMessage (content : string)
| HumanMessage (content : string)
| AIMessage (content : string).

(** The pieces [ChatPromptTemplate.from_messages] is given. *)
Inductive message_prompt : Type :=
| MessagesPlaceholder (variable_name : string)
| HumanMessagePromptTemplate_from_template (template : string).

(** An [asyncio.Queue] object is known by its address. *)
Definition loc : Type := nat.

(** [CustomStreamingCallbackHandler]: its one attribute. *)
Record CustomStreamingCallbackHandler : Type := {
  output_queue : loc
}.

(** How an awaited asynchronous generator ends for its caller. *)
Inductive ending : Type :=
| Stopped             (* the generator returned: iteration is over *)
| Pending             (* an [await] inside it never completes *)
| Failed (e : exn)    (* an exception was raised into the caller *).

Section Agent.

(** [langchain.schema.LLMResult], the aggregate handed to [on_llm_end]. *)
Variable LLMResult : Type.

(** A template object supplied by the caller ([langchain] prompt classes). *)
Variable PromptTemplate : Type.

(** The dictionary [agent_config.llamacpp_kwargs]. *)
Variable Kwargs : Type.

(** A loaded [langchain.llms.LlamaCpp] model. *)
Variable Llm : Type.

(** Modelled from the spec: the record [CallbackOutput] imported from
    [vocode.streaming.agent.utils], whose declaration is not part of the two
    files; the spec gives it as
    [{token: optional string, finish: bool, result: optional aggregate}].
    The result field keeps the name [response] the constructor call on
    source line 53 uses. Fields that a call leaves out take [None]/[false]. *)
Record CallbackOutput : Type := {
  token : option string;
  finish : bool;
  response : option LLMResult
}.

(** [agent_config.prompt_template]: a [str], [None], or a template object
    (an object of a [langchain] prompt class is truthy). *)
Inductive prompt_template_value : Type :=
| PyStr (s : string)
| PyNone
| PyObject (t : PromptTemplate).

Record LlamacppAgentConfig : Type := {
  prompt_template : prompt_template_value;
  prompt_preamble : string;
  llamacpp_kwargs : Kwargs
}.

(** The values [self.prompt] can take. *)
Inductive prompt_object : Type :=
| FormatHistoryPromptTemplate (input_variables : list string) (template : string)
| ChatPromptTemplate_from_messages (messages : list message_prompt)
| Supplied (t : PromptTemplate).

(** The queues alive in the interpreter, by address. *)
Abbreviation heap := (gmap loc (list CallbackOutput)).

(** [asyncio.Queue()]: a new, empty queue at an address not in use. *)
Definition asyncio_Queue (h : heap) : loc * heap :=
  let l := fresh (dom h) in (l, <[l := []]> h).

(** [q.put_nowait(x)] on the queue at [l]. *)
Definition put_nowait (l : loc) (x : CallbackOutput) (h : heap) : heap :=
  alter (fun q => q ++ [x]) l h.

(** [CallbackOutput(token=token)] *)
Definition token_output (tok : string) : CallbackOutput :=
  {| token := Some tok; finish := false; response := None |}.

(** [CallbackOutput(finish=True, response=response)] *)
Definition finish_output (r : LLMResult) : CallbackOutput :=
  {| token := None; finish := true; response := Some r |}.

(** [CustomStreamingCallbackHandler.on_llm_new_token] *)
Definition on_llm_new_token
    (self : CustomStreamingCallbackHandler) (tok : string) (h : heap) : heap :=
  put_nowait (output_queue self) (token_output tok) h.

(** [CustomStreamingCallbackHandler.on_llm_end] *)
Definition on_llm_end
    (self : CustomStreamingCallbackHandler) (r : LLMResult) (h : heap) : heap :=
  put_nowait (output_queue self) (finish_output r) h.

(** A hook the backend invokes on the registered handler while it runs. *)
Inductive hook : Type :=
| new_token (tok : string)
| llm_end (r : LLMResult).

Definition fire (cb : CustomStreamingCallbackHandler) (k : hook) (h : heap) : heap :=
  match k with
  | new_token tok => on_llm_new_token cb tok h
  | llm_end r => on_llm_end cb r h
  end.

(** One run of [ConversationChain.predict]: the hooks it invoked, in order,
    whether it returned a text or raised, and the memory it leaves. *)
Record prediction : Type := {
  hooks : list hook;
  outcome : result string;
  memory_after : list message
}.

(** [LlamaCpp(callback_manager=..., **kwargs)]: loads the model, or raises. *)
Variable LlamaCpp : Kwargs -> result Llm.

(** [ConversationChain(memory, prompt, llm).predict(input=...)], the blocking
    call into the inference engine. *)
Variable predict : Llm -> prompt_object -> list message -> string -> prediction.

(** The attributes of a [LlamacppAgent] the two methods use, and the records
    written through [self.logger]. *)
Record agent : Type := {
  agent_config : LlamacppAgentConfig;
  prompt : prompt_object;
  callback_queue : loc;
  callback : CustomStreamingCallbackHandler;
  llm : Llm;
  memory : list message;
  debug_log : list string
}.

(** Source lines 64 to 83: the choice of [prompt]. *)
Definition select_prompt (agent_config : LlamacppAgentConfig) : result prompt_object :=
  match prompt_template agent_config with
  | PyStr s =>
      if String.eqb s "alpaca" then
        Return (FormatHistoryPromptTemplate ["history"; "input"]
                  ALPACA_TEMPLATE_WITH_HISTORY)
      else
        Raise (ValueError ("Unknown prompt template " +:+ s))
  | PyObject t => Return (Supplied t)
  | PyNone =>
      Return (ChatPromptTemplate_from_messages
                [MessagesPlaceholder "history";
                 HumanMessagePromptTemplate_from_template "{input}"])
  end.

(** [LlamacppAgent.__init__] *)
Definition __init__ (agent_config : LlamacppAgentConfig) (h : heap)
  : result agent * heap :=
  match select_prompt agent_config with
  | Raise e => (Raise e, h)
  | Return prompt =>
      let '(callback_queue, h) := asyncio_Queue h in
      let callback := {| output_queue := callback_queue |} in
      match LlamaCpp (llamacpp_kwargs agent_config) with
      | Raise e => (Raise e, h)
      | Return llm =>
          (Return {| agent_config := agent_config;
                     prompt := prompt;
                     callback_queue := callback_queue;
                     callback := callback;
                     llm := llm;
                     memory := [SystemMessage (prompt_preamble agent_config)];
                     debug_log := [] |}, h)
      end
  end.

(** [loop.run_in_executor(self.thread_pool_executor, lambda ..., human_input)]
    seen once the single worker thread has finished the call: the hooks have
    written to the handler's queue, the memory is the one [predict] left, and
    the future holds the text or the exception. *)
Definition run_in_executor (self : agent) (human_input : string) (h : heap)
  : result string * agent * heap :=
  let p := predict (llm self) (prompt self) (memory self) human_input in
  (outcome p,
   {| agent_config := agent_config self;
      prompt := prompt self;
      callback_queue := callback_queue self;
      callback := callback self;
      llm := llm self;
      memory := memory_after p;
      debug_log := debug_log self |},
   foldl (fun h k => fire (callback self) k h) h (hooks p)).

(** [self.logger.debug(msg)] *)
Definition logger_debug (msg : string) (self : agent) : agent :=
  {| agent_config := agent_config self;
     prompt := prompt self;
     callback_queue := callback_queue self;
     callback := callback self;
     llm := llm self;
     memory := memory self;
     debug_log := debug_log self ++ [msg] |}.

(** [LlamacppAgent.respond]: the future is awaited, so what the call in the
    executor raised is raised again here. *)
Definition respond (self : agent) (human_input : string) (h : heap)
  : result (string * bool) * agent * heap :=
  let '(future, self, h) := run_in_executor self human_input h in
  match future with
  | Raise e => (Raise e, self, h)
  | Return text =>
      (Return (text, false), logger_debug ("LLM response: " +:+ text) self, h)
  end.

(** The inner generator [stream] of [generate_response] reading a queue
    whose contents are [q]: what it yields, how it ends, and what it leaves
    in the queue. On an empty queue [await self.callback_queue.get()] does
    not complete. *)
Fixpoint stream (q : list CallbackOutput)
  : list CallbackOutput * ending * list CallbackOutput :=
  match q with
  | [] => ([], Pending, [])
  | callback_output :: q =>
      if finish callback_output then ([], Stopped, q)
      else
        let '(yielded, e, rest) := stream q in
        (callback_output :: yielded, e, rest)
  end.

(** Modelled from the spec: [stream_response_async] of
    [vocode.streaming.agent.utils], which is not part of the two files. The
    spec describes the consumer built on it as: on each [CallbackOutput]
    with a token, yields the token. *)
Definition stream_response_async
    (gen : list CallbackOutput) (get_text : CallbackOutput -> option string)
    (openai : bool) : list string :=
  omap get_text gen.

(** [LlamacppAgent.generate_response]: the future returned by
    [run_in_executor] is dropped (source line 124 binds it to nothing); the
    generator then reads [self.callback_queue]. The result is the sequence
    of messages the caller receives and how the iteration ends. *)
Definition generate_response (self : agent) (human_input : string) (h : heap)
  : (list string * ending) * agent * heap :=
  let '(_, self, h) := run_in_executor self human_input h in
  let '(yielded, e, rest) := stream (default [] (h !! callback_queue self)) in
  ((stream_response_async yielded (fun o => token o) false, e),
   self,
   <[callback_queue self := rest]> h).

(** The item the handler writes when the backend invokes the hook [k]. *)
Definition hook_output (k : hook) : CallbackOutput :=
  match k with
  | new_token tok => token_output tok
  | llm_end r => finish_output r
  end.

(** The handler of [self] writes to the queue [self] reads, as the
    constructor sets things up. *)
Definition bound (self : agent) : Prop :=
  output_queue (callback self) = callback_queue self.

(** The states an agent goes through: [after_calls self0 self] when [self]
    is [self0] after any number of [respond] and [generate_response] calls,
    with any inputs, in any heaps. *)
Inductive after_calls (self0 : agent) : agent -> Prop :=
| after_no_call : after_calls self0 self0
| after_respond self human_input h :
    after_calls self0 self ->
    after_calls self0 (respond self human_input h).1.2
| after_generate_response self human_input h :
    after_calls self0 self ->
    after_calls self0 (generate_response self human_input h).1.2.

End Agent.

Arguments token {LLMResult} _.
Arguments finish {LLMResult} _.
Arguments response {LLMResult} _.
Arguments Build_CallbackOutput {LLMResult} _ _ _.
Arguments PyStr {PromptTemplate} s.
Arguments PyNone {PromptTemplate}.
Arguments PyObject {PromptTemplate} t.
Arguments prompt_template {PromptTemplate Kwargs} _.
Arguments prompt_preamble {PromptTemplate Kwargs} _.
Arguments llamacpp_kwargs {PromptTemplate Kwargs} _.
Arguments Build_LlamacppAgentConfig {PromptTemplate Kwargs} _ _ _.
Arguments FormatHistoryPromptTemplate {PromptTemplate} _ _.
Arguments ChatPromptTemplate_from_messages {PromptTemplate} _.
Arguments Supplied {PromptTemplate} t.
Arguments asyncio_Queue {LLMResult} h.
Arguments token_output {LLMResult} tok.
Arguments finish_output {LLMResult} r.
Arguments put_nowait {LLMResult} l x h.
Arguments on_llm_new_token {LLMResult} self tok h.
Arguments on_llm_end {LLMResult} self r h.
Arguments new_token {LLMResult} tok.
Arguments llm_end {LLMResult} r.
Arguments fire {LLMResult} cb k h.
Arguments hooks {LLMResult} _.
Arguments outcome {LLMResult} _.
Arguments memory_after {LLMResult} _.
Arguments Build_prediction {LLMResult} _ _ _.
Arguments agent_config {PromptTemplate Kwargs Llm} _.
Arguments prompt {PromptTemplate Kwargs Llm} _.
Arguments callback_queue {PromptTemplate Kwargs Llm} _.
Arguments callback {PromptTemplate Kwargs Llm} _.
Arguments llm {PromptTemplate Kwargs Llm} _.
Arguments memory {PromptTemplate Kwargs Llm} _.
Arguments debug_log {PromptTemplate Kwargs Llm} _.
Arguments Build_agent {PromptTemplate Kwargs Llm} _ _ _ _ _ _ _.
Arguments select_prompt {PromptTemplate Kwargs} agent_config.
Arguments __init__ {LLMResult PromptTemplate Kwargs Llm} LlamaCpp agent_config h.
Arguments run_in_executor {LLMResult PromptTemplate Kwargs Llm} predict self human_input h.
Arguments logger_debug {PromptTemplate Kwargs Llm} msg self.
Arguments respond {LLMResult PromptTemplate Kwargs Llm} predict self human_input h.
Arguments stream {LLMResult} q.
Arguments stream_response_async {LLMResult} gen get_text openai.
Arguments generate_response {LLMResult PromptTemplate Kwargs Llm} predict self human_input h.
Arguments hook_output {LLMResult} k.
Arguments bound {PromptTemplate Kwargs Llm} self.
Arguments after_calls {LLMResult PromptTemplate Kwargs Llm} predict self0 _.
Arguments after_no_call {LLMResult PromptTemplate Kwargs Llm} predict self0.
Arguments after_respond {LLMResult PromptTemplate Kwargs Llm} predict self0
  self human_input h _.
Arguments after_generate_response {LLMResult PromptTemplate Kwargs Llm} predict
  self0 self human_input h _.

End LlamacppAgent.

(** ** Concrete collaborators

    Small stand-ins for the codec, the converter and the inference engine,
    on which the two files are run in the examples further down. *)

Module Scenario.

Import MiniaudioWorker LlamacppAgent.

Inductive AudioEncoding : Type := LINEAR16 | MULAW.

(** A chunk decodes when it opens with the frame-sync byte; the decoded
    audio is what follows it. *)
Definition decode_mp3 (mp3_bytes : bytes) : result bytes :=
  match mp3_bytes with
  | xff :: payload => Return payload
  | _ => Raise (DecodeError "invalid frame header")
  end.

Definition pcm (mp3_bytes : bytes) : bytes := tail mp3_bytes.

Definition convert_wav (wav : bytes) (rate : Z) (enc : AudioEncoding) : bytes :=
  match enc with
  | LINEAR16 => wav
  | MULAW => x01 :: wav
  end.

Definition cfg : SynthesizerConfig AudioEncoding :=
  {| sampling_rate := 8000; audio_encoding := LINEAR16 |}.

Definition chunkA : bytes := [xff; x41].
Definition chunkB : bytes := [x00; x42].
Definition chunkC : bytes := [xff; x43].

(** [llamacpp_kwargs] as key/value pairs; the model loads when a path is
    given first. *)
Definition LlamaCpp (kwargs : list (string * string)) : result string :=
  match kwargs with
  | ("model_path", path) :: _ => Return path
  | _ => Raise (ValueError "model_path is required")
  end.

(** An engine that answers "Hi" with two tokens and fails on anything else
    after emitting one token. A failing run reaches the handler through
    [on_llm_error] only, which the handler inherits as a no-op, so nothing
    more is written. *)
Definition predict (llm : string) (p : prompt_object string)
    (history : list message) (input : string) : prediction string :=
  if String.eqb input "Hi" then
    {| hooks := [new_token "Hel"; new_token "lo"; llm_end "Hello"];
       outcome := Return "Hello";
       memory_after := history ++ [HumanMessage input; AIMessage "Hello"] |}
  else
    {| hooks := [new_token "He"];
       outcome := Raise (OtherError "RuntimeError" "llama_eval failed");
       memory_after := history |}.

Definition alpaca_config : LlamacppAgentConfig string (list (string * string)) :=
  {| prompt_template := PyStr "alpaca";
     prompt_preamble := "You are helpful.";
     llamacpp_kwargs := [("model_path", "ggml-model.bin")] |}.

Definition unknown_config : LlamacppAgentConfig string (list (string * string)) :=
  {| prompt_template := PyStr "unknown";
     prompt_preamble := "You are helpful.";
     llamacpp_kwargs := [("model_path", "ggml-model.bin")] |}.

Definition default_config : LlamacppAgentConfig string (list (string * string)) :=
  {| prompt_template := PyNone;
     prompt_preamble := "You are helpful.";
     llamacpp_kwargs := [("model_path", "ggml-model.bin")] |}.

(** The agent [LlamacppAgent(alpaca_config)] built in an interpreter with no
    queue yet, and the heap it leaves. *)
Definition the_agent : agent string (list (string * string)) string :=
  {| agent_config := alpaca_config;
     prompt := FormatHistoryPromptTemplate ["history"; "input"]
                 ALPACA_TEMPLATE_WITH_HISTORY;
     callback_queue := 0;
     callback := {| output_queue := 0 |};
     llm := "ggml-model.bin";
     memory := [SystemMessage "You are helpful."];
     debug_log := [] |}.

Definition the_heap : gmap loc (list (CallbackOutput string)) := {[ 0 := [] ]}.

(** A codec that, besides rejecting bad frames, runs out of memory on a
    chunk of more than two bytes. *)
Definition decode_mp3_small (mp3_bytes : bytes) : result bytes :=
  match mp3_bytes with
  | _ :: _ :: _ :: _ => Raise (OtherError "MemoryError" "out of memory")
  | _ => decode_mp3 mp3_bytes
  end.

Definition chunkD : bytes := [xff; x44; x45].

Definition other_config : LlamacppAgentConfig string (list (string * string)) :=
  {| prompt_template := PyObject "{history} {input}";
     prompt_preamble := "You are terse.";
     llamacpp_kwargs := [("model_path", "other-model.bin")] |}.

End Scenario.

(** * Properties *)

(** ** The decode worker *)

Module WorkerProps.

Import MiniaudioWorker.

Section Loop.

Context {AudioEncoding : Type}.
Variable decode_mp3 : bytes -> result bytes.
Variable convert_wav : bytes -> Z -> AudioEncoding -> bytes.

Local Abbreviation loop_body := (loop_body decode_mp3 convert_wav).
Local Abbreviation _run_loop := (_run_loop decode_mp3 convert_wav).
Local Abbreviation decodes_to := (decodes_to decode_mp3).
Local Abbreviation transcoded := (transcoded convert_wav).
Local Abbreviation decode_errors_only := (decode_errors_only decode_mp3).

Implicit Types (w : worker AudioEncoding) (cfg : SynthesizerConfig AudioEncoding).

Lemma moved_on_nil w : moved_on w (input_janus_queue w) [] [] = w.
Proof. destruct w; unfold moved_on; simpl. by rewrite !app_nil_r. Qed.

Lemma moved_on_twice w rest1 out1 msgs1 rest2 out2 msgs2 :
  moved_on (moved_on w rest1 out1 msgs1) rest2 out2 msgs2
  = moved_on w rest2 (out1 ++ out2) (msgs1 ++ msgs2).
Proof. unfold moved_on; simpl. by rewrite !app_assoc. Qed.

(** The three ways through the loop body that end in another iteration. *)
Lemma loop_body_absent w is_last rest :
  input_janus_queue w = (None, is_last) :: rest ->
  loop_body w = Continue (moved_on w rest [terminal_marker] []).
Proof.
  intros Hq. unfold MiniaudioWorker.loop_body. rewrite Hq.
  unfold moved_on, put, after_get; simpl. by rewrite app_nil_r.
Qed.

Lemma loop_body_decode_error w mp3_chunk is_last rest msg :
  input_janus_queue w = (Some mp3_chunk, is_last) :: rest ->
  decode_mp3 mp3_chunk = Raise (DecodeError msg) ->
  loop_body w
  = Continue (moved_on w rest [terminal_marker]
                ["MiniaudioWorker error: " +:+ msg]).
Proof.
  intros Hq Hd. unfold MiniaudioWorker.loop_body. rewrite Hq, Hd. reflexivity.
Qed.

Lemma loop_body_decoded w mp3_chunk is_last rest wav :
  input_janus_queue w = (Some mp3_chunk, is_last) :: rest ->
  decode_mp3 mp3_chunk = Return wav ->
  loop_body w
  = Continue
      (moved_on w rest
         [(Some (convert_wav wav (sampling_rate (synthesizer_config w))
                   (audio_encoding (synthesizer_config w))), is_last)] []).
Proof.
  intros Hq Hd. unfold MiniaudioWorker.loop_body. rewrite Hq, Hd.
  unfold moved_on, put, after_get; simpl. by rewrite app_nil_r.
Qed.

(** With nothing left to read the thread sits in [get()]. *)
Lemma run_loop_drained w fuel :
  input_janus_queue w = [] -> _run_loop (S fuel) w = (Waiting, w).
Proof.
  intros Hq. simpl. unfold MiniaudioWorker.loop_body. by rewrite Hq.
Qed.

(** A run of decodable chunks at the head of the input is consumed one
    iteration per chunk. *)
Lemma run_loop_decodable pcm chunks :
  decodes_to pcm chunks ->
  forall w rest fuel,
    input_janus_queue w = nonterminal chunks ++ rest ->
    _run_loop (length chunks + fuel) w
    = _run_loop fuel
        (moved_on w rest (transcoded pcm (synthesizer_config w) chunks) []).
Proof.
  induction 1 as [|[c fl] chunks Hc _ IH]; intros w rest fuel Hq.
  - simpl in *. rewrite <- Hq. by rewrite moved_on_nil.
  - simpl in Hq, Hc.
    change (length ((c, fl) :: chunks) + fuel) with (S (length chunks + fuel)).
    cbn [MiniaudioWorker._run_loop].
    rewrite (loop_body_decoded _ _ _ _ _ Hq Hc).
    rewrite (IH _ rest fuel); [|reflexivity].
    rewrite moved_on_twice. reflexivity.
Qed.

(** One iteration writes at most one item, and an absent chunk it writes
    carries [true]. *)
Lemma loop_body_writes w :
  match loop_body w with
  | Continue w' =>
      exists x, output_janus_queue w' = output_janus_queue w ++ [x]
                /\ marker_is_last x
  | Blocked => True
  | Escaped _ w' => output_janus_queue w' = output_janus_queue w
  end.
Proof.
  unfold MiniaudioWorker.loop_body.
  destruct (input_janus_queue w) as [|[[c|] fl] rest]; [done| |].
  - destruct (decode_mp3 c) as [wav|[]]; simpl; try done.
    + eexists; split; [done|]. by intros [=].
    + eexists; split; [done|]. done.
  - simpl. eexists; split; [done|]. done.
Qed.

(** An iteration is left by an exception only if decoding raised something
    other than [DecodeError]. *)
Lemma loop_body_escape w e w' :
  loop_body w = Escaped e w' ->
  exists x rest, input_janus_queue w = x :: rest /\ ~ decode_errors_only x.
Proof.
  unfold MiniaudioWorker.loop_body.
  destruct (input_janus_queue w) as [|[[c|] fl] rest] eqn:Hq; [done| |done].
  destruct (decode_mp3 c) as [wav|e0] eqn:Hd; [done|].
  intros He. exists (Some c, fl), rest. split; [done|].
  intros Hx. destruct (Hx c e0 eq_refl Hd) as [msg ->]. done.
Qed.

Lemma loop_body_input w w' :
  loop_body w = Continue w' ->
  exists x, input_janus_queue w = x :: input_janus_queue w'.
Proof.
  unfold MiniaudioWorker.loop_body.
  destruct (input_janus_queue w) as [|[[c|] fl] rest] eqn:Hq; [done| |].
  - destruct (decode_mp3 c) as [wav|[]]; intros [= <-]; by eexists.
  - intros [= <-]; by eexists.
Qed.

Lemma run_loop_no_crash fuel :
  forall w, Forall decode_errors_only (input_janus_queue w) ->
  forall e, (_run_loop fuel w).1 <> Crashed e.
Proof.
  induction fuel as [|fuel IH]; intros w Hall e; [done|].
  simpl. destruct (loop_body w) as [w'| |e' w'] eqn:Hb; [|done|].
  - apply IH. destruct (loop_body_input _ _ Hb) as [x Hx].
    rewrite Hx in Hall. by inversion Hall.
  - destruct (loop_body_escape _ _ _ Hb) as (x & rest & Hq & Hx).
    rewrite Hq in Hall. inversion Hall; subst. done.
Qed.

(** C3. A stream of M chunks, none of them absent and all decodable,
    followed by one absent marker: once the worker has drained its input
    the output queue holds exactly the M chunks, in input order, each
    decoded on its own and converted to the configured sampling rate and
    encoding with its [is_last] flag unchanged, followed by exactly one
    terminal marker; nothing is logged and the thread waits for input. *)
Theorem decoded_stream_one_to_one pcm cfg chunks flag fuel :
  decodes_to pcm chunks ->
  length chunks + 1 < fuel ->
  _run_loop fuel (fed cfg (nonterminal chunks ++ [(None, flag)]))
  = (Waiting,
     {| synthesizer_config := cfg;
        input_janus_queue := [];
        output_janus_queue := transcoded pcm cfg chunks ++ [terminal_marker];
        logged := [] |}).
Proof.
  intros Hdec Hfuel.
  replace fuel with (length chunks + S (S (fuel - length chunks - 2))) by lia.
  rewrite (run_loop_decodable pcm chunks Hdec _ [(None, flag)]); [|done].
  cbn [MiniaudioWorker._run_loop].
  rewrite (loop_body_absent _ flag []); [|done].
  unfold MiniaudioWorker.loop_body. simpl.
  rewrite moved_on_twice. reflexivity.
Qed.


(** C6. When the item pulled has the absent chunk, whatever its flag, the
    iteration writes [(None, True)], logs nothing and loops again on the
    rest of the input: the marker does not end the loop. A second stream
    queued behind the marker is therefore served by the same worker, up to
    its own terminal marker. *)
Theorem absent_chunk_forwarded w flag rest fuel :
  input_janus_queue w = (None, flag) :: rest ->
  loop_body w = Continue (moved_on w rest [terminal_marker] [])
  /\ _run_loop (S fuel) w
     = _run_loop fuel (moved_on w rest [terminal_marker] [])
  /\ (forall pcm next flag',
        rest = nonterminal next ++ [(None, flag')] ->
        decodes_to pcm next ->
        length next + 1 < fuel ->
        _run_loop (S fuel) w
        = (Waiting,
           moved_on w []
             (terminal_marker
                :: transcoded pcm (synthesizer_config w) next
                ++ [terminal_marker]) [])).
Proof.
  intros Hq.
  pose proof (loop_body_absent w flag rest Hq) as Hb.
  split; [exact Hb|]. split.
  - cbn [MiniaudioWorker._run_loop]. by rewrite Hb.
  - intros pcm next flag' -> Hdec Hfuel.
    cbn [MiniaudioWorker._run_loop]. rewrite Hb.
    replace fuel with (length next + S (S (fuel - length next - 2))) by lia.
    rewrite (run_loop_decodable pcm next Hdec _ [(None, flag')]); [|done].
    cbn [MiniaudioWorker._run_loop].
    rewrite (loop_body_absent _ flag' []); [|done].
    unfold MiniaudioWorker.loop_body. simpl.
    rewrite !moved_on_twice. reflexivity.
Qed.

(** C10. For any worker and any number of iterations, every item the loop
    adds to the output queue whose chunk is absent carries [True]: the
    output never receives [(None, False)], whatever the flags of the input
    items and whether or not the run ends in an exception. *)
Theorem absent_output_is_last fuel :
  forall w,
  exists written,
    output_janus_queue (_run_loop fuel w).2 = output_janus_queue w ++ written
    /\ Forall marker_is_last written.
Proof.
  induction fuel as [|fuel IH]; intros w.
  - exists []. simpl. by rewrite app_nil_r.
  - simpl. pose proof (loop_body_writes w) as Hw.
    destruct (loop_body w) as [w'| |e w'].
    + destruct Hw as (x & Hout & Hx). destruct (IH w') as (written & Hrun & Hall).
      exists (x :: written). split; [|by constructor].
      rewrite Hrun, Hout. by rewrite <- app_assoc.
    + exists []. simpl. by rewrite app_nil_r.
    + exists []. simpl. by rewrite app_nil_r.
Qed.

End Loop.

(** *** The theorems at work on the stand-in codec *)

Import Scenario.

Local Abbreviation run := (_run_loop Scenario.decode_mp3 Scenario.convert_wav).
Local Abbreviation body := (loop_body Scenario.decode_mp3 Scenario.convert_wav).

(** Two decodable chunks and the absent marker (sent with the flag
    [False]) come out as two converted chunks and one [(None, True)]. *)
Lemma decoded_stream_one_to_one_witness :
  decodes_to Scenario.decode_mp3 pcm [(chunkA, false); (chunkC, true)]
  /\ run 4 (fed cfg (nonterminal [(chunkA, false); (chunkC, true)]
                       ++ [(None, false)]))
     = (Waiting,
        {| synthesizer_config := cfg;
           input_janus_queue := [];
           output_janus_queue :=
             transcoded Scenario.convert_wav pcm cfg
               [(chunkA, false); (chunkC, true)] ++ [terminal_marker];
           logged := [] |}).
Proof.
  assert (H : decodes_to Scenario.decode_mp3 pcm [(chunkA, false); (chunkC, true)])
    by (repeat constructor).
  split; [exact H|].
  apply (decoded_stream_one_to_one Scenario.decode_mp3 Scenario.convert_wav
           pcm cfg [(chunkA, false); (chunkC, true)] false 4 H).
  simpl. lia.
Defined.



(** The scenario of the spec: A decodes, B (the last chunk) does not. *)
Example scenario_last_chunk_fails :
  run 3 (fed cfg [(Some chunkA, false); (Some chunkB, true)])
  = (Waiting,
     {| synthesizer_config := cfg;
        input_janus_queue := [];
        output_janus_queue := [(Some [x41], false); (None, true)];
        logged := ["MiniaudioWorker error: invalid frame header"] |}).
Proof. reflexivity. Qed.

(** An absent chunk sent with [False] between two streams. *)
Lemma absent_chunk_forwarded_witness :
  input_janus_queue (fed cfg [(None, false); (Some chunkC, true); (None, true)])
  = (None, false) :: [(Some chunkC, true); (None, true)]
  /\ body (fed cfg [(None, false); (Some chunkC, true); (None, true)])
     = Continue (moved_on (fed cfg [(None, false); (Some chunkC, true);
                                    (None, true)])
                   [(Some chunkC, true); (None, true)] [terminal_marker] []).
Proof.
  split; [reflexivity|].
  exact (proj1 (absent_chunk_forwarded Scenario.decode_mp3 Scenario.convert_wav
                  (fed cfg [(None, false); (Some chunkC, true); (None, true)])
                  false [(Some chunkC, true); (None, true)] 3 eq_refl)).
Defined.

Example two_streams_one_worker :
  run 6 (fed cfg [(Some chunkA, true); (None, true);
                  (Some chunkC, true); (None, false)])
  = (Waiting,
     {| synthesizer_config := cfg;
        input_janus_queue := [];
        output_janus_queue :=
          [(Some [x41], true); (None, true); (Some [x43], true); (None, true)];
        logged := [] |}).
Proof. reflexivity. Qed.

(** An exception of another class is not caught by the [except] clause: it
    leaves the loop, and the thread with it. *)
Example other_exception_escapes :
  _run_loop (fun _ => Raise (OtherError "MemoryError" "out of memory"))
    Scenario.convert_wav 5 (fed cfg [(Some chunkA, false); (None, true)])
  = (Crashed (OtherError "MemoryError" "out of memory"),
     {| synthesizer_config := cfg;
        input_janus_queue := [(None, true)];
        output_janus_queue := [];
        logged := [] |}).
Proof. reflexivity. Qed.

(** Flags [False] on an absent chunk and on a chunk that fails to decode
    both come out as [True]. *)
Example absent_or_failed_with_false_flag :
  output_janus_queue
    (run 3 (fed cfg [(None, false); (Some chunkB, false)])).2
  = [(None, true); (None, true)].
Proof. reflexivity. Qed.

(** *** The loop as a whole *)

Section Runs.

Context {AudioEncoding : Type}.
Variable decode_mp3 : bytes -> result bytes.
Variable convert_wav : bytes -> Z -> AudioEncoding -> bytes.

Local Abbreviation loop_body := (loop_body decode_mp3 convert_wav).
Local Abbreviation _run_loop := (_run_loop decode_mp3 convert_wav).
Local Abbreviation decode_errors_only := (decode_errors_only decode_mp3).
Local Abbreviation emitted := (emitted decode_mp3 convert_wav).
Local Abbreviation complaints := (complaints decode_mp3).

Implicit Types (w : worker AudioEncoding) (cfg : SynthesizerConfig AudioEncoding).

(** One iteration on an item whose decoding raises at most [DecodeError]. *)
Lemma loop_body_emits w x rest :
  input_janus_queue w = x :: rest ->
  decode_errors_only x ->
  loop_body w
  = Continue (moved_on w rest [emitted (synthesizer_config w) x] (complaints x)).
Proof.
  destruct x as [[c|] fl]; intros Hq Hx.
  - unfold MiniaudioWorker.emitted, MiniaudioWorker.complaints. simpl.
    destruct (decode_mp3 c) as [wav|e] eqn:Hd.
    + apply (loop_body_decoded _ _ _ _ _ _ _ Hq Hd).
    + destruct (Hx c e eq_refl Hd) as [msg ->].
      apply (loop_body_decode_error _ _ _ _ _ _ _ Hq Hd).
  - apply (loop_body_absent _ _ _ _ _ Hq).
Qed.

(** One iteration on a chunk whose decoding raises something else. *)
Lemma loop_body_raises w mp3_chunk flag rest e :
  input_janus_queue w = (Some mp3_chunk, flag) :: rest ->
  decode_mp3 mp3_chunk = Raise e ->
  (forall msg, e <> DecodeError msg) ->
  loop_body w = Escaped e (moved_on w rest [] []).
Proof.
  intros Hq Hd He. unfold MiniaudioWorker.loop_body. rewrite Hq, Hd.
  assert (Hw : after_get rest w = moved_on w rest [] []).
  { unfold after_get, moved_on. by rewrite !app_nil_r. }
  destruct e as [m|m|c m]; [by rewrite Hw|by destruct (He m)|by rewrite Hw].
Qed.

Lemma run_loop_prefix xs :
  Forall decode_errors_only xs ->
  forall w rest fuel,
    input_janus_queue w = xs ++ rest ->
    _run_loop (length xs + fuel) w
    = _run_loop fuel
        (moved_on w rest (map (emitted (synthesizer_config w)) xs)
           (concat (map complaints xs))).
Proof.
  induction 1 as [|x xs Hx _ IH]; intros w rest fuel Hq.
  - simpl in *. rewrite <- Hq. by rewrite moved_on_nil.
  - change (length (x :: xs) + fuel) with (S (length xs + fuel)).
    cbn [MiniaudioWorker._run_loop].
    rewrite (loop_body_emits w x (xs ++ rest) Hq Hx).
    rewrite (IH _ rest fuel); [|reflexivity].
    rewrite moved_on_twice. reflexivity.
Qed.

(** What one iteration keeps and what it moves. *)
Lemma loop_body_frame w :
  match loop_body w with
  | Continue w' =>
      synthesizer_config w' = synthesizer_config w
      /\ exists x y, input_janus_queue w = x :: input_janus_queue w'
                     /\ output_janus_queue w' = output_janus_queue w ++ [y]
  | Blocked => input_janus_queue w = []
  | Escaped _ w' =>
      synthesizer_config w' = synthesizer_config w
      /\ output_janus_queue w' = output_janus_queue w
      /\ exists x, input_janus_queue w = x :: input_janus_queue w'
  end.
Proof.
  unfold MiniaudioWorker.loop_body.
  destruct (input_janus_queue w) as [|[[c|] fl] rest]; [done| |].
  - destruct (decode_mp3 c) as [wav|[]]; simpl; eauto 6.
  - simpl. eauto 6.
Qed.

(** X1. Run on a queue in which decoding raises nothing but [DecodeError],
    for more iterations than there are items, the loop ends waiting in
    [get()] with the queue drained, and what it wrote is the input mapped
    item by item, in order: as many output items as input items, the i-th
    one the marker or the converted chunk of the i-th input. What it logged
    are the decode failures, in order. *)
Theorem run_loop_maps_input w fuel :
  Forall decode_errors_only (input_janus_queue w) ->
  length (input_janus_queue w) < fuel ->
  _run_loop fuel w
  = (Waiting,
     moved_on w []
       (map (emitted (synthesizer_config w)) (input_janus_queue w))
       (concat (map complaints (input_janus_queue w)))).
Proof.
  intros Hall Hfuel.
  replace fuel
    with (length (input_janus_queue w) + S (fuel - length (input_janus_queue w) - 1))
    by lia.
  rewrite (run_loop_prefix _ Hall w []); [|by rewrite app_nil_r].
  by apply run_loop_drained.
Qed.

(** X2. However long the loop runs and however it ends, the configuration
    is the one it started with, the input queue is a suffix of the one it
    started with, and the loop wrote exactly one item per item it took,
    except that the item on which an exception escaped is taken without
    anything written for it. *)
Theorem run_loop_one_for_one fuel :
  forall w,
  synthesizer_config (_run_loop fuel w).2 = synthesizer_config w
  /\ exists taken,
       input_janus_queue w = taken ++ input_janus_queue (_run_loop fuel w).2
       /\ match (_run_loop fuel w).1 with
          | Crashed _ =>
              S (length (output_janus_queue (_run_loop fuel w).2))
              = length (output_janus_queue w) + length taken
          | _ =>
              length (output_janus_queue (_run_loop fuel w).2)
              = length (output_janus_queue w) + length taken
          end.
Proof.
  induction fuel as [|fuel IH]; intros w.
  - split; [done|]. exists []. simpl. split; [done|]. lia.
  - simpl. pose proof (loop_body_frame w) as Hf.
    destruct (loop_body w) as [w'| |e w'].
    + destruct Hf as (Hc & x & y & Hin & Hout).
      destruct (IH w') as (Hc' & taken & Hin' & Hlen).
      split; [congruence|]. exists (x :: taken). split.
      * rewrite Hin. simpl. by rewrite <- Hin'.
      * rewrite Hout, length_app in Hlen. simpl in *.
        destruct (_run_loop fuel w').1; lia.
    + split; [done|]. exists []. simpl. split; [done|]. lia.
    + destruct Hf as (Hc & Hout & x & Hin).
      split; [done|]. exists [x]. simpl. split; [done|]. rewrite Hout. lia.
Qed.

(** X3. Each iteration takes one item, so a bound above the number of
    queued items is never reached: the loop ends waiting, with the queue
    drained, or crashed, and what it leaves does not depend on the bound. *)
Theorem run_loop_settles fuel :
  forall w fuel',
  length (input_janus_queue w) < fuel ->
  length (input_janus_queue w) < fuel' ->
  (_run_loop fuel w).1 <> Running
  /\ ((_run_loop fuel w).1 = Waiting -> input_janus_queue (_run_loop fuel w).2 = [])
  /\ _run_loop fuel' w = _run_loop fuel w.
Proof.
  induction fuel as [|fuel IH]; intros w fuel' Hf Hf'; [lia|].
  destruct fuel' as [|fuel']; [lia|].
  simpl. pose proof (loop_body_frame w) as Hb.
  destruct (loop_body w) as [w'| |e w'].
  - destruct Hb as (_ & x & y & Hin & _). rewrite Hin in Hf, Hf'. simpl in *.
    apply IH; lia.
  - done.
  - done.
Qed.

Lemma run_loop_fed xs :
  Forall decode_errors_only xs ->
  forall cfg fuel,
    length xs < fuel ->
    _run_loop fuel (fed cfg xs)
    = (Waiting,
       {| synthesizer_config := cfg;
          input_janus_queue := [];
          output_janus_queue := map (emitted cfg) xs;
          logged := concat (map complaints xs) |}).
Proof.
  intros Hall cfg fuel Hfuel.
  replace fuel with (length xs + S (fuel - length xs - 1)) by lia.
  rewrite (run_loop_prefix xs Hall (fed cfg xs) []); [|by rewrite app_nil_r].
  reflexivity.
Qed.

(** X4. Items put on the input queue while the worker waits are handled
    exactly as if they had been queued behind the earlier ones from the
    start: serving [xs] until the worker waits, then being fed [ys], comes
    to the same as being fed [xs ++ ys] at once. *)
Theorem run_loop_feeds_compose cfg xs ys fuel1 fuel2 :
  Forall decode_errors_only xs ->
  length xs < fuel1 ->
  _run_loop fuel2 (enqueue ys (_run_loop fuel1 (fed cfg xs)).2)
  = _run_loop (length xs + fuel2) (fed cfg (xs ++ ys)).
Proof.
  intros Hall Hfuel.
  rewrite (run_loop_fed xs Hall cfg fuel1 Hfuel).
  rewrite (run_loop_prefix xs Hall (fed cfg (xs ++ ys)) ys fuel2); [|done].
  reflexivity.
Qed.

(** X5. An exception other than [DecodeError] raised by the decoder ends
    the thread: the items before the offending chunk have been served one
    for one, the chunk itself is taken off the queue with nothing written
    for it (no terminal marker, no log record), and the items behind it
    stay queued, unserved. *)
Theorem run_loop_crashes cfg xs mp3_chunk flag rest e fuel :
  Forall decode_errors_only xs ->
  decode_mp3 mp3_chunk = Raise e ->
  (forall msg, e <> DecodeError msg) ->
  _run_loop (length xs + S fuel)
    (fed cfg (xs ++ (Some mp3_chunk, flag) :: rest))
  = (Crashed e,
     {| synthesizer_config := cfg;
        input_janus_queue := rest;
        output_janus_queue := map (emitted cfg) xs;
        logged := concat (map complaints xs) |}).
Proof.
  intros Hall Hd He.
  rewrite (run_loop_prefix xs Hall _ ((Some mp3_chunk, flag) :: rest)); [|done].
  cbn [MiniaudioWorker._run_loop].
  rewrite (loop_body_raises _ mp3_chunk flag rest e); [|done|done|done].
  rewrite moved_on_twice. unfold moved_on; simpl. by rewrite !app_nil_r.
Qed.

(** C7. When decoding the pulled chunk raises [miniaudio.DecodeError], the
    iteration writes [(None, True)], logs the failure and loops again on the
    rest of the input: the exception does not leave the loop body. The
    marker and the log record are in the state the loop goes on from, and
    the items queued behind the failed chunk are served: as long as decoding
    raises nothing but [DecodeError] on them, the thread never ends up
    crashed, and once they are drained it waits in [get()] having written
    the marker followed by one item for each of them, in order. *)
Theorem decode_error_recovered w mp3_chunk flag rest msg fuel :
  input_janus_queue w = (Some mp3_chunk, flag) :: rest ->
  decode_mp3 mp3_chunk = Raise (DecodeError msg) ->
  loop_body w
  = Continue (moved_on w rest [terminal_marker]
                ["MiniaudioWorker error: " +:+ msg])
  /\ _run_loop (S fuel) w
     = _run_loop fuel
         (moved_on w rest [terminal_marker]
            ["MiniaudioWorker error: " +:+ msg])
  /\ (Forall decode_errors_only rest ->
      (forall e, (_run_loop (S fuel) w).1 <> Crashed e)
      /\ (length rest < fuel ->
          _run_loop (S fuel) w
          = (Waiting,
             moved_on w []
               (terminal_marker :: map (emitted (synthesizer_config w)) rest)
               (("MiniaudioWorker error: " +:+ msg)
                  :: concat (map complaints rest))))).
Proof.
  intros Hq Hfail.
  pose proof (loop_body_decode_error decode_mp3 convert_wav
                w mp3_chunk flag rest msg Hq Hfail) as Hb.
  split; [exact Hb|]. split.
  - cbn [MiniaudioWorker._run_loop]. by rewrite Hb.
  - intros Hrest. split.
    + intros e. cbn [MiniaudioWorker._run_loop]. rewrite Hb.
      by apply run_loop_no_crash.
    + intros Hfuel. cbn [MiniaudioWorker._run_loop]. rewrite Hb.
      replace fuel with (length rest + S (fuel - length rest - 1)) by lia.
      rewrite (run_loop_prefix rest Hrest _ []); [|by rewrite app_nil_r].
      rewrite run_loop_drained; [|done].
      rewrite moved_on_twice. reflexivity.
Qed.

End Runs.

(** Settles [decode_errors_only] for the items of a queue written out in
    full, by running the decoder on each chunk. *)
Local Ltac run_decoder :=
  repeat constructor;
  let c := fresh "c" in let e := fresh "e" in
  let Hc := fresh "Hc" in let Hd := fresh "Hd" in
  intros c e Hc Hd; simpl in Hc; try discriminate Hc;
  inversion Hc; subst; vm_compute in Hd;
  try discriminate Hd; inversion Hd; eauto.

Lemma run_loop_maps_input_witness :
  Forall (decode_errors_only Scenario.decode_mp3)
    [(Some chunkA, false); (None, false); (Some chunkB, false)]
  /\ run 4 (fed cfg [(Some chunkA, false); (None, false); (Some chunkB, false)])
     = (Waiting,
        moved_on (fed cfg [(Some chunkA, false); (None, false);
                           (Some chunkB, false)]) []
          (map (emitted Scenario.decode_mp3 Scenario.convert_wav cfg)
             [(Some chunkA, false); (None, false); (Some chunkB, false)])
          (concat (map (complaints Scenario.decode_mp3)
                     [(Some chunkA, false); (None, false);
                      (Some chunkB, false)]))).
Proof.
  assert (H : Forall (decode_errors_only Scenario.decode_mp3)
                [(Some chunkA, false); (None, false); (Some chunkB, false)])
    by run_decoder.
  split; [exact H|].
  apply (run_loop_maps_input Scenario.decode_mp3 Scenario.convert_wav
           (fed cfg [(Some chunkA, false); (None, false); (Some chunkB, false)])
           4 H).
  simpl. lia.
Defined.

Example run_loop_maps_input_values :
  run 4 (fed cfg [(Some chunkA, false); (None, false); (Some chunkB, false)])
  = (Waiting,
     {| synthesizer_config := cfg;
        input_janus_queue := [];
        output_janus_queue := [(Some [x41], false); (None, true); (None, true)];
        logged := ["MiniaudioWorker error: invalid frame header"] |}).
Proof. reflexivity. Qed.

Lemma run_loop_settles_witness :
  (run 3 (fed cfg [(Some chunkA, false); (Some chunkC, true)])).1 <> Running
  /\ run 7 (fed cfg [(Some chunkA, false); (Some chunkC, true)])
     = run 3 (fed cfg [(Some chunkA, false); (Some chunkC, true)]).
Proof.
  assert (H3 : length (input_janus_queue
                         (fed cfg [(Some chunkA, false); (Some chunkC, true)])) < 3)
    by (simpl; lia).
  assert (H7 : length (input_janus_queue
                         (fed cfg [(Some chunkA, false); (Some chunkC, true)])) < 7)
    by (simpl; lia).
  pose proof (run_loop_settles Scenario.decode_mp3 Scenario.convert_wav 3
                (fed cfg [(Some chunkA, false); (Some chunkC, true)]) 7 H3 H7)
    as (Hr & _ & Heq).
  exact (conj Hr Heq).
Defined.

Lemma run_loop_feeds_compose_witness :
  run 3 (enqueue [(Some chunkC, true); (None, true)]
           (run 5 (fed cfg [(Some chunkA, false); (Some chunkB, false)])).2)
  = run (2 + 3) (fed cfg ([(Some chunkA, false); (Some chunkB, false)]
                          ++ [(Some chunkC, true); (None, true)])).
Proof.
  apply (run_loop_feeds_compose Scenario.decode_mp3 Scenario.convert_wav cfg
           [(Some chunkA, false); (Some chunkB, false)]
           [(Some chunkC, true); (None, true)] 5 3).
  - run_decoder.
  - simpl. lia.
Defined.

Lemma run_loop_crashes_witness :
  decode_mp3_small chunkD = Raise (OtherError "MemoryError" "out of memory")
  /\ _run_loop decode_mp3_small Scenario.convert_wav (1 + 1)
       (fed cfg ([(Some chunkA, false)]
                 ++ (Some chunkD, false) :: [(Some chunkC, true)]))
     = (Crashed (OtherError "MemoryError" "out of memory"),
        {| synthesizer_config := cfg;
           input_janus_queue := [(Some chunkC, true)];
           output_janus_queue :=
             map (emitted decode_mp3_small Scenario.convert_wav cfg)
               [(Some chunkA, false)];
           logged := concat (map (complaints decode_mp3_small)
                               [(Some chunkA, false)]) |}).
Proof.
  split; [reflexivity|].
  apply (run_loop_crashes decode_mp3_small Scenario.convert_wav cfg
           [(Some chunkA, false)] chunkD false [(Some chunkC, true)]
           (OtherError "MemoryError" "out of memory") 0).
  - run_decoder.
  - reflexivity.
  - discriminate.
Defined.

(** A chunk that does not decode, sent with [False], with a decodable
    chunk queued behind it: the marker is written, the failure logged, and
    the next chunk served. *)
Lemma decode_error_recovered_witness :
  Scenario.decode_mp3 chunkB = Raise (DecodeError "invalid frame header")
  /\ body (fed cfg [(Some chunkB, false); (Some chunkA, true)])
     = Continue (moved_on (fed cfg [(Some chunkB, false); (Some chunkA, true)])
                   [(Some chunkA, true)] [terminal_marker]
                   ["MiniaudioWorker error: " +:+ "invalid frame header"])
  /\ run 3 (fed cfg [(Some chunkB, false); (Some chunkA, true)])
     = (Waiting,
        moved_on (fed cfg [(Some chunkB, false); (Some chunkA, true)]) []
          (terminal_marker
             :: map (emitted Scenario.decode_mp3 Scenario.convert_wav cfg)
                  [(Some chunkA, true)])
          (("MiniaudioWorker error: " +:+ "invalid frame header")
             :: concat (map (complaints Scenario.decode_mp3)
                          [(Some chunkA, true)]))).
Proof.
  split; [reflexivity|].
  pose proof (decode_error_recovered Scenario.decode_mp3 Scenario.convert_wav
                (fed cfg [(Some chunkB, false); (Some chunkA, true)])
                chunkB false [(Some chunkA, true)] "invalid frame header" 2
                eq_refl eq_refl) as (Hbody & _ & Hrest).
  split; [exact Hbody|].
  assert (Hall : Forall (decode_errors_only Scenario.decode_mp3)
                   [(Some chunkA, true)]) by run_decoder.
  apply (proj2 (Hrest Hall)). simpl. lia.
Defined.

Example decode_error_recovered_values :
  run 3 (fed cfg [(Some chunkB, false); (Some chunkA, true)])
  = (Waiting,
     {| synthesizer_config := cfg;
        input_janus_queue := [];
        output_janus_queue := [(None, true); (Some [x41], true)];
        logged := ["MiniaudioWorker error: invalid frame header"] |}).
Proof. reflexivity. Qed.

End WorkerProps.

(** ** The llama.cpp agent *)

Module AgentProps.

Import LlamacppAgent.

Section Agent.

Context {LLMResult PromptTemplate Kwargs Llm : Type}.
Variable LlamaCpp : Kwargs -> result Llm.
Variable predict :
  Llm -> prompt_object PromptTemplate -> list message -> string ->
  prediction LLMResult.

Local Abbreviation __init__ := (__init__ (LLMResult:=LLMResult) LlamaCpp).
Local Abbreviation run_in_executor := (run_in_executor predict).
Local Abbreviation respond := (respond predict).
Local Abbreviation generate_response := (generate_response predict).

Implicit Types (self : agent PromptTemplate Kwargs Llm)
  (h : gmap loc (list (CallbackOutput LLMResult)))
  (q pre post : list (CallbackOutput LLMResult)).

(** *** The generator [stream] *)

Lemma stream_stops pre fin post :
  Forall (fun o => finish o = false) pre ->
  finish fin = true ->
  stream (pre ++ fin :: post) = (pre, Stopped, post).
Proof.
  intros Hpre Hfin. induction Hpre as [|o pre Ho _ IH]; simpl.
  - by rewrite Hfin.
  - by rewrite Ho, IH.
Qed.

Lemma stream_pending q :
  Forall (fun o => finish o = false) q -> stream q = (q, Pending, []).
Proof.
  induction 1 as [|o q Ho _ IH]; simpl; [done|]. by rewrite Ho, IH.
Qed.

(** Nothing the generator does raises into its caller. *)
Lemma stream_never_fails q e : (stream q).1.2 <> Failed e.
Proof.
  induction q as [|o q IH]; simpl; [done|].
  destruct (finish o); [done|].
  destruct (stream q) as [[y e'] r]. exact IH.
Qed.

(** *** The heap under the callbacks *)

Lemma dom_put_nowait l x h : dom (put_nowait l x h) = dom h.
Proof. unfold put_nowait. apply dom_alter_L. Qed.

Lemma dom_fire cb k h : dom (fire cb k h) = dom h.
Proof. destruct k; apply dom_put_nowait. Qed.

Lemma dom_hooks cb ks h : dom (foldl (fun h k => fire cb k h) h ks) = dom h.
Proof.
  revert h. induction ks as [|k ks IH]; intros h; simpl; [done|].
  by rewrite IH, dom_fire.
Qed.

Lemma run_in_executor_keeps self human_input h :
  callback_queue (run_in_executor self human_input h).1.2 = callback_queue self
  /\ callback (run_in_executor self human_input h).1.2 = callback self
  /\ dom (run_in_executor self human_input h).2 = dom h.
Proof. unfold LlamacppAgent.run_in_executor; simpl. by rewrite dom_hooks. Qed.

(** [generate_response] unfolded once: the messages are read off the queue
    at [self.callback_queue] as the executor's run left it. *)
Lemma generate_response_reads self human_input h :
  generate_response self human_input h
  = let r := run_in_executor self human_input h in
    let s := stream (default [] (r.2 !! callback_queue r.1.2)) in
    ((stream_response_async s.1.1 (fun o => token o) false, s.1.2),
     r.1.2,
     <[callback_queue r.1.2 := s.2]> r.2).
Proof.
  unfold LlamacppAgent.generate_response.
  destruct (LlamacppAgent.run_in_executor _ _ _ _) as [[fut a] h1]. simpl.
  destruct (stream _) as [[y e] rest]. reflexivity.
Qed.

(** The iteration over [generate_response] ends or hangs; it is never left
    by an exception, whatever the backend did. *)
Lemma generate_response_never_fails self human_input h e :
  (generate_response self human_input h).1.1.2 <> Failed e.
Proof. rewrite generate_response_reads. simpl. apply stream_never_fails. Qed.

(** [respond] raises what the call in the executor raised. *)
Lemma respond_propagates self human_input h e :
  outcome (predict (llm self) (prompt self) (memory self) human_input) = Raise e ->
  (respond self human_input h).1.1 = Raise e.
Proof.
  intros He. unfold LlamacppAgent.respond, LlamacppAgent.run_in_executor.
  by rewrite He.
Qed.

(** A call of [generate_response] allocates nothing and rebinds nothing. *)
Lemma generate_response_keeps self human_input h :
  callback_queue self ∈ dom h ->
  callback_queue (generate_response self human_input h).1.2 = callback_queue self
  /\ callback (generate_response self human_input h).1.2 = callback self
  /\ dom (generate_response self human_input h).2 = dom h.
Proof.
  intros Hin. rewrite generate_response_reads. cbn zeta. cbn [fst snd].
  destruct (run_in_executor_keeps self human_input h) as (Hq & Hc & Hd).
  rewrite Hq, Hc. split; [done|]. split; [done|].
  rewrite dom_insert_L, Hd. apply subseteq_union_1_L.
  by apply singleton_subseteq_l.
Qed.

(** What a successful construction leaves behind. *)
Lemma init_allocates agent_config h self h' :
  __init__ agent_config h = (Return self, h') ->
  callback_queue self = fresh (dom h)
  /\ h' = <[callback_queue self := []]> h
  /\ output_queue (callback self) = callback_queue self.
Proof.
  unfold LlamacppAgent.__init__, asyncio_Queue.
  destruct (select_prompt agent_config) as [p|e]; [|done].
  destruct (LlamaCpp (llamacpp_kwargs agent_config)) as [m|e]; [|done].
  by intros [= <- <-].
Qed.

(** [respond] rebinds neither the queue nor the handler. *)
Lemma respond_keeps self human_input h :
  callback_queue (respond self human_input h).1.2 = callback_queue self
  /\ callback (respond self human_input h).1.2 = callback self.
Proof.
  unfold LlamacppAgent.respond, LlamacppAgent.run_in_executor.
  by destruct (outcome _).
Qed.

(** Whatever calls were made on it, an agent has the queue and the handler
    it was constructed with. *)
Lemma after_calls_keeps self0 self :
  after_calls predict self0 self ->
  callback_queue self = callback_queue self0 /\ callback self = callback self0.
Proof.
  induction 1 as [|self human_input h _ [IHq IHc]|self human_input h _ [IHq IHc]].
  - done.
  - destruct (respond_keeps self human_input h) as (-> & ->). done.
  - rewrite generate_response_reads. cbn zeta. cbn [fst snd].
    destruct (run_in_executor_keeps self human_input h) as (-> & -> & _). done.
Qed.

(** C1, as the code has it. The queue and the callback handler writing to
    it are created once, by the constructor: the queue is new with respect
    to every queue alive at that moment and starts empty. A call of
    [generate_response] creates neither: on the agent in any state it has
    reached, after any number of earlier calls, the call takes its items
    from the queue the constructor made, and leaves that address, the
    handler and the set of live queues as they were, so that every call on
    one agent reads the same queue. *)
Theorem callback_queue_created_once agent_config h self0 h' :
  __init__ agent_config h = (Return self0, h') ->
  (callback_queue self0 ∉ dom h)
  /\ h' = <[callback_queue self0 := []]> h
  /\ output_queue (callback self0) = callback_queue self0
  /\ (forall self human_input h1,
        after_calls predict self0 self ->
        callback_queue self0 ∈ dom h1 ->
        let r := generate_response self human_input h1 in
        callback_queue self = callback_queue self0
        /\ callback_queue r.1.2 = callback_queue self0
        /\ callback r.1.2 = callback self0
        /\ dom r.2 = dom h1
        /\ r.2 !! callback_queue self0
           = Some (stream (default []
                             ((run_in_executor self human_input h1).2
                                !! callback_queue self0))).2).
Proof.
  intros Hinit. destruct (init_allocates _ _ _ _ Hinit) as (Hl & Hh & Hcb).
  split; [rewrite Hl; apply is_fresh|]. split; [exact Hh|]. split; [exact Hcb|].
  intros self human_input h1 Hafter Hin. cbv zeta.
  destruct (after_calls_keeps self0 self Hafter) as (Hq0 & Hc0).
  rewrite <- Hq0 in Hin |- *. rewrite <- Hc0.
  destruct (generate_response_keeps self human_input h1 Hin) as (Hq & Hc & Hd).
  split; [done|]. split; [exact Hq|]. split; [exact Hc|]. split; [exact Hd|].
  rewrite generate_response_reads. cbn zeta. cbn [fst snd].
  destruct (run_in_executor_keeps self human_input h1) as (-> & _ & _).
  by rewrite lookup_insert_eq.
Qed.

(** C5. A string template is checked by the constructor. With "alpaca" the
    check passes, the prompt is the instruction-style template that takes
    the flattened history, and the agent is built as soon as the model
    loads. Any other string makes the constructor raise [ValueError] before
    anything else is done: no agent exists on which a call could be made. A
    value that is not a string passes the check, and the constructor can
    then only raise what loading the model raises. *)
Theorem prompt_template_validated agent_config h :
  (prompt_template agent_config = PyStr "alpaca" ->
     select_prompt agent_config
     = Return (FormatHistoryPromptTemplate ["history"; "input"]
                 ALPACA_TEMPLATE_WITH_HISTORY)
     /\ forall m, LlamaCpp (llamacpp_kwargs agent_config) = Return m ->
         exists self,
           (__init__ agent_config h).1 = Return self
           /\ prompt self
              = FormatHistoryPromptTemplate ["history"; "input"]
                  ALPACA_TEMPLATE_WITH_HISTORY)
  /\ (forall s, prompt_template agent_config = PyStr s -> s <> "alpaca" ->
        __init__ agent_config h
        = (Raise (ValueError ("Unknown prompt template " +:+ s)), h))
  /\ ((forall s, prompt_template agent_config <> PyStr s) ->
        (exists p, select_prompt agent_config = Return p)
        /\ forall e, (__init__ agent_config h).1 = Raise e ->
            LlamaCpp (llamacpp_kwargs agent_config) = Raise e).
Proof.
  split; [|split].
  - intros Hs. unfold LlamacppAgent.__init__, select_prompt. rewrite Hs. simpl.
    split; [done|]. intros m ->. simpl. by eexists.
  - intros s Hs Hne. unfold LlamacppAgent.__init__, select_prompt. rewrite Hs.
    destruct (String.eqb_spec s "alpaca") as [->|_]; [done|]. reflexivity.
  - intros Hns. unfold LlamacppAgent.__init__, select_prompt.
    destruct (prompt_template agent_config) as [s| |t] eqn:Hp.
    + by destruct (Hns s).
    + split; [by eexists|]. simpl.
      destruct (LlamaCpp (llamacpp_kwargs agent_config)); simpl; congruence.
    + split; [by eexists|]. simpl.
      destruct (LlamaCpp (llamacpp_kwargs agent_config)); simpl; congruence.
Qed.


(** C9. When the blocking [predict] call returns a text, [respond] returns
    that very text paired with [False]; and whatever [respond] returns, on
    any input, the flag is [False] and the text is what [predict]
    returned. *)
Theorem respond_returns_text_false self human_input h text :
  outcome (predict (llm self) (prompt self) (memory self) human_input)
  = Return text ->
  (respond self human_input h).1.1 = Return (text, false)
  /\ (forall self' human_input' h' text' flag,
        (respond self' human_input' h').1.1 = Return (text', flag) ->
        flag = false
        /\ outcome (predict (llm self') (prompt self') (memory self') human_input')
           = Return text').
Proof.
  intros Hout. split.
  - unfold LlamacppAgent.respond, LlamacppAgent.run_in_executor. by rewrite Hout.
  - intros self' human_input' h' text' flag.
    unfold LlamacppAgent.respond, LlamacppAgent.run_in_executor.
    destruct (outcome (predict (llm self') (prompt self') (memory self')
                         human_input')) as [t|e]; simpl; [|done].
    intros Heq. inversion Heq. done.
Qed.

End Agent.

(** *** The theorems at work on the stand-in engine *)

Import Scenario.

Local Abbreviation init := (__init__ (LLMResult:=string) Scenario.LlamaCpp).
Local Abbreviation respond := (respond Scenario.predict).
Local Abbreviation generate_response := (generate_response Scenario.predict).

Example init_alpaca : init alpaca_config ∅ = (Return the_agent, the_heap).
Proof. reflexivity. Qed.

(** The scenario of the spec: "alpaca", preamble "You are helpful.", then
    [respond("Hi")]. *)
Example scenario_respond_hi :
  (respond the_agent "Hi" the_heap).1.1 = Return ("Hello", false).
Proof. reflexivity. Qed.

(** C1 as the spec words it fails on two successive calls on one agent: the
    queue the first call reads was alive before the call (the constructor
    made it), the second call reads the queue at the same address, and
    neither call adds a queue to the heap. *)
Lemma one_queue_for_all_calls :
  let r1 := generate_response the_agent "Hi" the_heap in
  let r2 := generate_response r1.1.2 "Hi" r1.2 in
  init alpaca_config ∅ = (Return the_agent, the_heap)
  /\ the_heap !! callback_queue the_agent = Some []
  /\ r1.1.1 = (["Hel"; "lo"], Stopped)
  /\ callback_queue r1.1.2 = callback_queue the_agent
  /\ r1.2 !! callback_queue r1.1.2 = Some []
  /\ r2.1.1 = (["Hel"; "lo"], Stopped)
  /\ dom r1.2 = dom the_heap
  /\ dom r2.2 = dom the_heap.
Proof. vm_compute. repeat split. Qed.

(** What sharing the queue means in practice: the tokens and the finish
    item written while [respond] ran stay in the queue, and the next
    [generate_response] delivers them in place of its own. *)
Example respond_leaves_items_for_the_next_stream :
  let r1 := respond the_agent "Hi" the_heap in
  let r2 := generate_response r1.1.2 "boom" r1.2 in
  r1.1.1 = Return ("Hello", false)
  /\ r2.1.1 = (["Hel"; "lo"], Stopped)
  /\ r2.2 !! 0 = Some [token_output "He"].
Proof. vm_compute. repeat split. Qed.

Lemma callback_queue_created_once_witness :
  init alpaca_config ∅ = (Return the_agent, the_heap)
  /\ (callback_queue the_agent ∉ dom (∅ : gmap loc (list (CallbackOutput string))))
  /\ (let r1 := generate_response the_agent "Hi" the_heap in
      let r2 := generate_response r1.1.2 "boom" r1.2 in
      callback_queue r2.1.2 = callback_queue the_agent
      /\ dom r2.2 = dom r1.2
      /\ r2.2 !! callback_queue the_agent
         = Some (stream (default []
                           ((run_in_executor Scenario.predict r1.1.2 "boom"
                               r1.2).2 !! callback_queue the_agent))).2).
Proof.
  split; [reflexivity|].
  pose proof (callback_queue_created_once Scenario.LlamaCpp Scenario.predict
                alpaca_config ∅ the_agent the_heap eq_refl) as (H1 & _ & _ & Hcall).
  split; [exact H1|]. intros r1 r2.
  assert (Hin : callback_queue the_agent ∈ dom r1.2).
  { apply elem_of_dom. exists []. reflexivity. }
  destruct (Hcall r1.1.2 "boom" r1.2
              (after_generate_response Scenario.predict the_agent the_agent
                 "Hi" the_heap (after_no_call Scenario.predict the_agent))
              Hin) as (_ & H2 & _ & H3 & H4).
  exact (conj H2 (conj H3 H4)).
Defined.

(** C4 at a failing backend. The engine raises on "boom" after one token.
    [respond] raises the same exception into its caller. The caller of
    [generate_response] receives the one token and then waits for ever: the
    exception stays in the future nobody holds. After either call the agent
    still answers. *)
Lemma generate_response_drops_backend_failure :
  outcome (Scenario.predict (llm the_agent) (prompt the_agent)
             (memory the_agent) "boom")
  = Raise (OtherError "RuntimeError" "llama_eval failed")
  /\ (respond the_agent "boom" the_heap).1.1
     = Raise (OtherError "RuntimeError" "llama_eval failed")
  /\ (generate_response the_agent "boom" the_heap).1.1 = (["He"], Pending)
  /\ (let r := respond the_agent "boom" the_heap in
      (respond r.1.2 "Hi" r.2).1.1 = Return ("Hello", false))
  /\ (let r := generate_response the_agent "boom" the_heap in
      (generate_response r.1.2 "Hi" r.2).1.1 = (["Hel"; "lo"], Stopped)).
Proof. vm_compute. repeat split. Qed.

Lemma prompt_template_validated_witness :
  prompt_template unknown_config = PyStr "unknown"
  /\ "unknown" <> "alpaca"
  /\ init unknown_config ∅
     = (Raise (ValueError ("Unknown prompt template " +:+ "unknown")), ∅)
  /\ prompt_template alpaca_config = PyStr "alpaca"
  /\ (exists self,
        (init alpaca_config ∅).1 = Return self
        /\ prompt self
           = FormatHistoryPromptTemplate ["history"; "input"]
               ALPACA_TEMPLATE_WITH_HISTORY).
Proof.
  assert (Hne : "unknown" <> "alpaca") by discriminate.
  split; [reflexivity|]. split; [exact Hne|]. split.
  - exact (proj1 (proj2 (prompt_template_validated Scenario.LlamaCpp
                           unknown_config ∅))
             "unknown" eq_refl Hne).
  - split; [reflexivity|].
    exact (proj2 (proj1 (prompt_template_validated Scenario.LlamaCpp
                           alpaca_config ∅) eq_refl)
             "ggml-model.bin" eq_refl).
Defined.

Example default_template_constructs :
  (init default_config ∅).1
  = Return {| agent_config := default_config;
              prompt := ChatPromptTemplate_from_messages
                          [MessagesPlaceholder "history";
                           HumanMessagePromptTemplate_from_template "{input}"];
              callback_queue := 0;
              callback := {| output_queue := 0 |};
              llm := "ggml-model.bin";
              memory := [SystemMessage "You are helpful."];
              debug_log := [] |}.
Proof. reflexivity. Qed.


Lemma respond_returns_text_false_witness :
  outcome (Scenario.predict (llm the_agent) (prompt the_agent)
             (memory the_agent) "Hi") = Return "Hello"
  /\ (respond the_agent "Hi" the_heap).1.1 = Return ("Hello", false).
Proof.
  split; [reflexivity|].
  exact (proj1 (respond_returns_text_false Scenario.predict the_agent "Hi"
                  the_heap "Hello" eq_refl)).
Defined.

(** *** Calls against the shared queue *)

Section Calls.

Context {LLMResult PromptTemplate Kwargs Llm : Type}.
Variable LlamaCpp : Kwargs -> result Llm.
Variable predict :
  Llm -> prompt_object PromptTemplate -> list message -> string ->
  prediction LLMResult.

Local Abbreviation __init__ :=
  (LlamacppAgent.__init__ (LLMResult:=LLMResult) LlamaCpp).
Local Abbreviation run_in_executor := (LlamacppAgent.run_in_executor predict).
Local Abbreviation respond := (LlamacppAgent.respond predict).
Local Abbreviation generate_response :=
  (LlamacppAgent.generate_response predict).

Implicit Types (self : agent PromptTemplate Kwargs Llm)
  (h : gmap loc (list (CallbackOutput LLMResult)))
  (q pre post : list (CallbackOutput LLMResult))
  (ks : list (hook LLMResult)).

(** The prediction a call on [self] with [human_input] runs. *)
Local Abbreviation run_of self human_input :=
  (predict (llm self) (prompt self) (memory self) human_input).

(** The hooks write behind what the handler's queue holds, in the order
    they are invoked, and touch no other queue. *)
Lemma hooks_append cb ks :
  forall h q,
    h !! output_queue cb = Some q ->
    foldl (fun h k => fire cb k h) h ks !! output_queue cb
    = Some (q ++ map hook_output ks).
Proof.
  induction ks as [|k ks IH]; intros h q Hq; simpl.
  - by rewrite app_nil_r.
  - rewrite (IH _ (q ++ [hook_output k])).
    + by rewrite <- app_assoc.
    + destruct k; simpl; unfold on_llm_new_token, on_llm_end, put_nowait;
        by rewrite lookup_alter_eq, Hq.
Qed.

Lemma hooks_elsewhere cb ks l :
  l <> output_queue cb ->
  forall h, foldl (fun h k => fire cb k h) h ks !! l = h !! l.
Proof.
  intros Hl. induction ks as [|k ks IH]; intros h; simpl; [done|].
  rewrite IH. destruct k; simpl; unfold on_llm_new_token, on_llm_end, put_nowait;
    by rewrite lookup_alter_ne.
Qed.

Lemma omap_token_outputs (toks : list string) :
  omap (fun o : CallbackOutput LLMResult => token o) (map token_output toks) = toks.
Proof. induction toks as [|tok toks IH]; simpl; [done|]. by f_equal. Qed.

Lemma hook_outputs_of_tokens (toks : list string) :
  map hook_output (map new_token toks)
  = map (token_output (LLMResult:=LLMResult)) toks.
Proof. induction toks as [|tok toks IH]; simpl; [done|]. by f_equal. Qed.

Lemma token_outputs_unfinished (toks : list string) :
  Forall (fun o : CallbackOutput LLMResult => finish o = false)
    (map token_output toks).
Proof. induction toks; simpl; by constructor. Qed.

(** [generate_response] on a bound agent whose queue holds [q]. *)
Lemma generate_response_on_queue self human_input h q :
  bound self ->
  h !! callback_queue self = Some q ->
  (generate_response self human_input h).1.1
  = (let s := stream (q ++ map hook_output (hooks (run_of self human_input))) in
     (omap (fun o => token o) s.1.1, s.1.2))
  /\ (generate_response self human_input h).2 !! callback_queue self
     = Some (stream (q ++ map hook_output (hooks (run_of self human_input)))).2.
Proof.
  intros Hb Hq. rewrite generate_response_reads. cbn zeta. cbn [fst snd].
  destruct (run_in_executor_keeps predict self human_input h) as (-> & _ & _).
  assert (Hrun : (run_in_executor self human_input h).2 !! callback_queue self
                 = Some (q ++ map hook_output (hooks (run_of self human_input)))).
  { unfold LlamacppAgent.run_in_executor; simpl. rewrite <- Hb.
    apply hooks_append. by rewrite Hb. }
  rewrite Hrun. simpl. split; [done|]. by rewrite lookup_insert_eq.
Qed.

(** What [respond] does to the heap and to the agent. *)
Lemma respond_effects self human_input h :
  (respond self human_input h).2 = (run_in_executor self human_input h).2
  /\ callback_queue (respond self human_input h).1.2 = callback_queue self
  /\ callback (respond self human_input h).1.2 = callback self.
Proof.
  unfold LlamacppAgent.respond, LlamacppAgent.run_in_executor.
  by destruct (outcome _).
Qed.

Lemma respond_writes_never_reads_aux self human_input h q :
  bound self ->
  h !! callback_queue self = Some q ->
  (respond self human_input h).2 !! callback_queue self
  = Some (q ++ map hook_output (hooks (run_of self human_input)))
  /\ callback_queue (respond self human_input h).1.2 = callback_queue self
  /\ callback (respond self human_input h).1.2 = callback self.
Proof.
  intros Hb Hq. destruct (respond_effects self human_input h) as (-> & Hc & Hd).
  split; [|done].
  unfold LlamacppAgent.run_in_executor; simpl.
  rewrite <- Hb. apply hooks_append. by rewrite Hb.
Qed.

(** X6. [respond] writes to the agent's queue and never reads it: whether
    the backend returns or raises, the items of the hooks it invoked are
    left in the queue behind what was there, in the order of the calls, and
    no other queue is touched. *)
Theorem respond_writes_never_reads self human_input h q :
  bound self ->
  h !! callback_queue self = Some q ->
  (respond self human_input h).2 !! callback_queue self
  = Some (q ++ map hook_output (hooks (run_of self human_input)))
  /\ (forall l, l <> callback_queue self ->
        (respond self human_input h).2 !! l = h !! l).
Proof.
  intros Hb Hq. destruct (respond_effects self human_input h) as (-> & _ & _).
  unfold LlamacppAgent.run_in_executor; simpl. split.
  - rewrite <- Hb. apply hooks_append. by rewrite Hb.
  - intros l Hl. apply hooks_elsewhere. by rewrite Hb.
Qed.

(** X7. End to end on an empty queue: when the backend invokes
    [on_llm_new_token] for the tokens [toks] and then [on_llm_end],
    [generate_response] delivers exactly [toks], in order, stops, and leaves
    the queue empty for the next call. *)
Theorem generate_response_end_to_end self human_input h toks r :
  bound self ->
  h !! callback_queue self = Some [] ->
  hooks (run_of self human_input) = map new_token toks ++ [llm_end r] ->
  (generate_response self human_input h).1.1 = (toks, Stopped)
  /\ (generate_response self human_input h).2 !! callback_queue self = Some [].
Proof.
  intros Hb Hq Hk.
  destruct (generate_response_on_queue self human_input h [] Hb Hq) as (-> & ->).
  rewrite Hk, map_app, hook_outputs_of_tokens. simpl.
  rewrite (stream_stops (map token_output toks) (finish_output r) []
             (token_outputs_unfinished toks) eq_refl).
  simpl. by rewrite omap_token_outputs.
Qed.

(** X8. When the backend never invokes [on_llm_end] (as when it raises
    part-way), [generate_response] on an empty queue delivers the tokens
    emitted so far and then waits for ever; it does not stop and it does
    not raise, whatever [predict] returned or raised. *)
Theorem generate_response_hangs self human_input h toks :
  bound self ->
  h !! callback_queue self = Some [] ->
  hooks (run_of self human_input) = map new_token toks ->
  (generate_response self human_input h).1.1 = (toks, Pending)
  /\ (generate_response self human_input h).2 !! callback_queue self = Some [].
Proof.
  intros Hb Hq Hk.
  destruct (generate_response_on_queue self human_input h [] Hb Hq) as (-> & ->).
  rewrite Hk, hook_outputs_of_tokens. simpl.
  rewrite (stream_pending _ (token_outputs_unfinished toks)).
  simpl. by rewrite omap_token_outputs.
Qed.

(** X9. The items [respond] leaves behind are what the next
    [generate_response] delivers: after a [respond] whose backend emitted
    the tokens [toks] and ended, a [generate_response] call on the same
    agent yields [toks] and stops on that earlier finish item, and
    everything its own backend run wrote stays in the queue. *)
Theorem respond_then_generate_response self input1 input2 h toks r :
  bound self ->
  h !! callback_queue self = Some [] ->
  hooks (run_of self input1) = map new_token toks ++ [llm_end r] ->
  let r1 := respond self input1 h in
  (generate_response r1.1.2 input2 r1.2).1.1 = (toks, Stopped)
  /\ (generate_response r1.1.2 input2 r1.2).2 !! callback_queue self
     = Some (map hook_output (hooks (run_of r1.1.2 input2))).
Proof.
  intros Hb Hq Hk r1.
  destruct (respond_writes_never_reads_aux self input1 h [] Hb Hq) as (Hq1 & Hcq & Hcb).
  fold r1 in Hq1, Hcq, Hcb.
  assert (Hb1 : bound r1.1.2) by (unfold bound; by rewrite Hcq, Hcb).
  rewrite <- Hcq in Hq1.
  destruct (generate_response_on_queue r1.1.2 input2 r1.2 _ Hb1 Hq1) as (-> & H2).
  rewrite <- Hcq, H2. clear H2. simpl app.
  rewrite Hk, map_app, hook_outputs_of_tokens.
  rewrite <- app_assoc. simpl.
  rewrite (stream_stops (map token_output toks) (finish_output r) _
             (token_outputs_unfinished toks) eq_refl).
  simpl. by rewrite omap_token_outputs.
Qed.

(** A call on a bound agent leaves every queue but the agent's own as it
    found it. *)
Lemma calls_touch_own_queue_only self human_input h l :
  bound self ->
  l <> callback_queue self ->
  (respond self human_input h).2 !! l = h !! l
  /\ (generate_response self human_input h).2 !! l = h !! l.
Proof.
  intros Hb Hl. split.
  - destruct (respond_effects self human_input h) as (-> & _ & _).
    unfold LlamacppAgent.run_in_executor; simpl.
    apply hooks_elsewhere. by rewrite Hb.
  - rewrite generate_response_reads. cbn zeta. cbn [fst snd].
    destruct (run_in_executor_keeps predict self human_input h) as (-> & _ & _).
    rewrite lookup_insert_ne; [|done].
    unfold LlamacppAgent.run_in_executor; simpl.
    apply hooks_elsewhere. by rewrite Hb.
Qed.

(** An agent keeps writing to the queue it reads, whatever calls were
    made on it. *)
Lemma after_calls_bound self0 self :
  bound self0 ->
  after_calls predict self0 self ->
  bound self /\ callback_queue self = callback_queue self0.
Proof.
  intros Hb Hafter.
  destruct (after_calls_keeps predict self0 self Hafter) as (Hq & Hc).
  split; [|exact Hq]. unfold bound. by rewrite Hq, Hc.
Qed.

(** X10. Two agents constructed one after the other have different queues,
    and they keep them: in whatever states the two agents are after any
    number of calls, their queues differ, and no call of [respond] or
    [generate_response] on either of them changes the queue of the
    other. *)
Theorem agents_do_not_share config1 config2 h a1 h1 a2 h2 :
  __init__ config1 h = (Return a1, h1) ->
  __init__ config2 h1 = (Return a2, h2) ->
  forall s1 s2,
    after_calls predict a1 s1 ->
    after_calls predict a2 s2 ->
    callback_queue s1 <> callback_queue s2
    /\ (forall human_input h',
          (respond s1 human_input h').2 !! callback_queue s2
          = h' !! callback_queue s2
          /\ (generate_response s1 human_input h').2 !! callback_queue s2
             = h' !! callback_queue s2
          /\ (respond s2 human_input h').2 !! callback_queue s1
             = h' !! callback_queue s1
          /\ (generate_response s2 human_input h').2 !! callback_queue s1
             = h' !! callback_queue s1).
Proof.
  intros H1 H2 s1 s2 Hs1 Hs2.
  destruct (init_allocates LlamaCpp _ _ _ _ H1) as (Hl1 & Hh1 & Hb1).
  destruct (init_allocates LlamaCpp _ _ _ _ H2) as (Hl2 & _ & Hb2).
  assert (Hne0 : callback_queue a1 <> callback_queue a2).
  { intros Heq. pose proof (is_fresh (dom h1)) as Hfresh.
    rewrite <- Hl2, <- Heq, Hh1, dom_insert_L in Hfresh.
    apply Hfresh, elem_of_union_l. by apply elem_of_singleton. }
  destruct (after_calls_bound a1 s1 Hb1 Hs1) as (Hbs1 & Hq1).
  destruct (after_calls_bound a2 s2 Hb2 Hs2) as (Hbs2 & Hq2).
  assert (Hne : callback_queue s1 <> callback_queue s2) by congruence.
  split; [exact Hne|]. intros human_input h'.
  destruct (calls_touch_own_queue_only s1 human_input h' (callback_queue s2) Hbs1)
    as (Hr1 & Hg1); [congruence|].
  destruct (calls_touch_own_queue_only s2 human_input h' (callback_queue s1) Hbs2)
    as (Hr2 & Hg2); [congruence|].
  done.
Qed.

(** X11. The generator [stream] neither loses nor duplicates nor reorders
    what it reads: the items it yields, all of them without [finish], are a
    prefix of the queue; if it stops, the next item is one with [finish]
    set, which is dropped, and the rest is left in the queue; otherwise it
    has read the whole queue and waits. It never raises. *)
Theorem stream_partitions q :
  Forall (fun o => finish o = false) (stream q).1.1
  /\ match (stream q).1.2 with
     | Stopped =>
         exists fin, finish fin = true
                     /\ q = (stream q).1.1 ++ fin :: (stream q).2
     | Pending => q = (stream q).1.1 /\ (stream q).2 = []
     | Failed _ => False
     end.
Proof.
  induction q as [|o q IH]; simpl; [done|].
  destruct (finish o) eqn:Ho; simpl.
  - split; [done|]. by exists o.
  - destruct (stream q) as [[y e] rest]. simpl in *.
    destruct IH as (Hy & He). split; [by constructor|].
    destruct e as [| |e].
    + destruct He as (fin & Hfin & ->). by exists fin.
    + destruct He as (-> & ->). done.
    + done.
Qed.

End Calls.

Lemma respond_writes_never_reads_witness :
  bound the_agent
  /\ the_heap !! callback_queue the_agent = Some []
  /\ (respond the_agent "boom" the_heap).2 !! callback_queue the_agent
     = Some ([] ++ map hook_output
                     (hooks (Scenario.predict (llm the_agent) (prompt the_agent)
                               (memory the_agent) "boom"))).
Proof.
  split; [reflexivity|]. split; [reflexivity|].
  exact (proj1 (respond_writes_never_reads Scenario.predict the_agent "boom"
                  the_heap [] eq_refl eq_refl)).
Defined.

Lemma generate_response_end_to_end_witness :
  hooks (Scenario.predict (llm the_agent) (prompt the_agent)
           (memory the_agent) "Hi")
  = map new_token ["Hel"; "lo"] ++ [llm_end "Hello"]
  /\ (generate_response the_agent "Hi" the_heap).1.1 = (["Hel"; "lo"], Stopped).
Proof.
  split; [reflexivity|].
  exact (proj1 (generate_response_end_to_end Scenario.predict the_agent "Hi"
                  the_heap ["Hel"; "lo"] "Hello" eq_refl eq_refl eq_refl)).
Defined.

Lemma generate_response_hangs_witness :
  hooks (Scenario.predict (llm the_agent) (prompt the_agent)
           (memory the_agent) "boom")
  = map new_token ["He"]
  /\ (generate_response the_agent "boom" the_heap).1.1 = (["He"], Pending).
Proof.
  split; [reflexivity|].
  exact (proj1 (generate_response_hangs Scenario.predict the_agent "boom"
                  the_heap ["He"] eq_refl eq_refl eq_refl)).
Defined.

Lemma respond_then_generate_response_witness :
  (generate_response (respond the_agent "Hi" the_heap).1.2 "boom"
     (respond the_agent "Hi" the_heap).2).1.1
  = (["Hel"; "lo"], Stopped).
Proof.
  exact (proj1 (respond_then_generate_response Scenario.predict the_agent
                  "Hi" "boom" the_heap ["Hel"; "lo"] "Hello"
                  eq_refl eq_refl eq_refl)).
Defined.

Lemma agents_do_not_share_witness :
  init alpaca_config ∅ = (Return the_agent, the_heap)
  /\ (exists a2 h2,
        init other_config the_heap = (Return a2, h2)
        /\ (let s1 := (respond the_agent "Hi" the_heap).1.2 in
            let s2 := (generate_response a2 "boom" h2).1.2 in
            callback_queue s1 <> callback_queue s2
            /\ (generate_response s1 "Hi" h2).2 !! callback_queue s2
               = h2 !! callback_queue s2)).
Proof.
  split; [reflexivity|].
  eexists _, _. split; [reflexivity|]. intros s1 s2.
  pose proof (agents_do_not_share Scenario.LlamaCpp Scenario.predict
                alpaca_config other_config ∅ the_agent the_heap _ _
                eq_refl eq_refl s1 s2
                (after_respond Scenario.predict the_agent the_agent "Hi"
                   the_heap (after_no_call Scenario.predict the_agent))
                (after_generate_response Scenario.predict _ _ "boom" _
                   (after_no_call Scenario.predict _)))
    as (Hne & Hcalls).
  split; [exact Hne|].
  exact (proj1 (proj2 (Hcalls "Hi" _))).
Defined.

End AgentProps.
